(** * FlappyBird: a shallow embedding of [flappy.py] and its game-loop core

    The development follows the source file class by class ([Floor],
    [Pipe], [PipeFactory], [Bird], [GameMemento], [GameOriginator], [Game],
    the commands, [Observer], [main]).  Rendering, audio and the clock have
    no effect on the state the properties talk about and are left out.

    Numbers.  Python integers are [Z].  The bird's vertical position,
    velocity, fall angle and rotation become Python floats as soon as
    [GRAVITY = 0.3] or [ROTATION_SPEED = 0.05] is added to them, so the
    bird is written over an interface [PyNum] of the operations the source
    applies to them.  Two instances are given: [binary64] (IEEE 754 double
    precision through the kernel's primitive floats: what CPython runs) and
    [exactQ] (the rationals: the same program in exact arithmetic). *)

From Stdlib Require Import ZArith QArith Bool List String Lia Lqa.
From Stdlib Require PrimFloat Uint63.
Import ListNotations.

#[local] Open Scope Z_scope.

(** ** The numeric interface *)

Class PyNum (F : Type) : Type := {
  of_int : Z -> F;            (* an int operand met by a float operation *)
  of_lit : Q -> F;            (* a decimal literal of the source text *)
  plus   : F -> F -> F;       (* a + b *)
  minus  : F -> F -> F;       (* a - b *)
  lt     : F -> F -> bool;    (* a < b, and b > a *)
  le     : F -> F -> bool     (* a <= b, and b >= a *)
}.

(** Exact rational arithmetic. *)
#[export] Instance exactQ : PyNum Q := {
  of_int := inject_Z;
  of_lit := fun q => q;
  plus   := Qplus;
  minus  := Qminus;
  lt     := fun a b => negb (Qle_bool b a);
  le     := Qle_bool
}.

(** IEEE 754 binary64.  Every integer the game converts is far below 2^53
    in absolute value, so the conversion is exact there. *)
Definition float_of_Z (z : Z) : PrimFloat.float :=
  if z <? 0
  then PrimFloat.opp (PrimFloat.of_uint63 (Uint63.of_Z (- z)))
  else PrimFloat.of_uint63 (Uint63.of_Z z).

(** A decimal literal [n/d] denotes the double nearest to it; the correctly
    rounded quotient of the two (exactly converted) integers is that double. *)
Definition float_of_lit (q : Q) : PrimFloat.float :=
  PrimFloat.div (float_of_Z (Qnum q)) (float_of_Z (Zpos (Qden q))).

#[export] Instance binary64 : PyNum PrimFloat.float := {
  of_int := float_of_Z;
  of_lit := float_of_lit;
  plus   := PrimFloat.add;
  minus  := PrimFloat.sub;
  lt     := PrimFloat.ltb;
  le     := PrimFloat.leb
}.

(** ** Exceptions

    The two exceptions the modelled code can raise: [ValueError]
    ([list.remove] of an absent element, [randint] on an empty range) and
    [SystemExit] ([exit()] after [pygame.quit()]). *)

Inductive exn : Type := ValueError | SystemExit.

Inductive result (A : Type) : Type :=
| Ok (a : A)
| Raise (e : exn).
Arguments Ok {A} a.
Arguments Raise {A} e.

Definition bind {A B : Type} (m : result A) (k : A -> result B) : result B :=
  match m with
  | Ok a => k a
  | Raise e => Raise e
  end.

Notation "x <- m ;; k" := (bind m (fun x => k))
  (at level 61, m at next level, right associativity).
Notation "' p <- m ;; k" := (bind m (fun x => let p := x in k))
  (at level 61, p pattern, m at next level, right associativity).

(** ** Global constants *)

Definition WIDTH : Z := 576.
Definition HEIGHT : Z := 1024.
Definition GRAVITY : Q := 3 # 10.
Definition FLAP_POWER : Z := 6.
Definition ROTATION_SPEED : Q := 5 # 100.
(** [PIPE_GAP] is a module global that [Game.__init__] reassigns; this is
    its value when the module is loaded. *)
Definition PIPE_GAP_default : Z := 250.
Definition PIPE_THICKNESS : Z := 104.
Definition PIPE_SPEED : Z := 4.
Definition FLOOR_SPEED : Z := 4.

(** ** Sprites

    [Sprite.__init__] loads its image(s), doubles them in size and keeps
    the width and height of the (first) surface.  The image files are not
    part of the sources: an image is represented by those two numbers. *)

Record Image : Type := { get_width : Z; get_height : Z }.

Record Assets : Type := {
  yellowbird : Image;   (* sprites/yellowbird-upflap.png, scaled *)
  pipe_top   : Image;   (* sprites/pipe-top.png, scaled *)
  base       : Image    (* sprites/base.png, scaled *)
}.

(** The original artwork: 34x24, 52x320 and 336x112 pixels, doubled. *)
Definition stock_assets : Assets := {|
  yellowbird := {| get_width := 68;  get_height := 48 |};
  pipe_top   := {| get_width := 104; get_height := 640 |};
  base       := {| get_width := 672; get_height := 224 |}
|}.

(** [random.randint(a, b)]: some integer of [a..b], here chosen by a raw
    draw [r]; [ValueError] on an empty range. *)
Definition randint (r a b : Z) : result Z :=
  if a <=? b then Ok (a + r mod (b - a + 1)) else Raise ValueError.

Module Floor.

Record t : Type := mk { x : Z; y : Z; height : Z; width : Z }.

Definition init (x y : Z) (image : Image) : t :=
  {| x := x; y := y; height := get_height image; width := get_width image |}.

Definition motion (f : t) : t :=
  {| x := x f - FLOOR_SPEED; y := y f; height := height f; width := width f |}.

Definition offscreen (f : t) : bool := x f <? - WIDTH.

Definition set_x (v : Z) (f : t) : t :=
  {| x := v; y := y f; height := height f; width := width f |}.

End Floor.

Module Pipe.

(** [ident] stands for the identity of the Python object: [Pipe] defines
    no [__eq__], so [list.remove] compares pipes by identity.  A pipe has
    no [y] ([None] is passed to [Sprite.__init__]). *)
Record t : Type := mk {
  ident : nat;
  x : Z;
  height : Z;
  width : Z;
  gap_start : Z;
  shared_state : string
}.

(** [PIPE_GAP] is the global's value when the constructor runs, [r] the
    raw draw handed to [randint]. *)
Definition init (ident : nat) (PIPE_GAP r : Z)
    (x : Z) (image : Image) (shared_state : string) : result t :=
  gap <- randint r 50 (HEIGHT - PIPE_GAP - 224 - 50) ;;
  Ok {| ident := ident; x := x;
        height := get_height image; width := get_width image;
        gap_start := gap; shared_state := shared_state |}.

Definition motion (p : t) : t :=
  {| ident := ident p; x := x p - PIPE_SPEED;
     height := height p; width := width p;
     gap_start := gap_start p; shared_state := shared_state p |}.

Definition offscreen (p : t) : bool := x p + PIPE_THICKNESS <? 0.

(** [l.remove(p)]: drops the first element that is [p]; [ValueError] when
    there is none. *)
Fixpoint list_remove (p : t) (l : list t) : result (list t) :=
  match l with
  | [] => Raise ValueError
  | q :: l' =>
      if Nat.eqb (ident q) (ident p) then Ok l'
      else (r <- list_remove p l' ;; Ok (q :: r))
  end.

End Pipe.

Module Bird.
Section WithNumbers.
Context {F : Type} {num : PyNum F}.

Record t : Type := mk {
  x : Z;
  y : F;
  height : Z;
  width : Z;
  vely : F;
  started : bool;
  degree : F;
  rotation : F
}.

Definition init (x : Z) (y : F) (image : Image) : t :=
  {| x := x; y := y;
     height := get_height image; width := get_width image;
     vely := of_int 0; started := false;
     degree := of_int 0; rotation := of_int 0 |}.

Definition motion (b : t) : t :=
  let vely' := plus (vely b) (of_lit GRAVITY) in
  let y' := plus (y b) vely' in
  let degree' := plus (degree b) (of_lit ROTATION_SPEED) in
  let rotation' :=
    if le (of_int (-90)) (rotation b)
    then minus (rotation b) degree'
    else rotation b in
  {| x := x b; y := y'; height := height b; width := width b;
     vely := vely'; started := started b;
     degree := degree'; rotation := rotation' |}.

Definition flap (b : t) : t :=
  {| x := x b; y := y b; height := height b; width := width b;
     vely := of_int (- FLAP_POWER); started := started b;
     degree := of_int 0; rotation := of_int 20 |}.

Definition set_started (v : bool) (b : t) : t :=
  {| x := x b; y := y b; height := height b; width := width b;
     vely := vely b; started := v;
     degree := degree b; rotation := rotation b |}.

(** [PIPE_GAP] is the current value of the global. *)
Definition collision (PIPE_GAP : Z) (b : t) (floor : Floor.t) (pipe : Pipe.t)
    : bool :=
  (lt (y b) (of_int 0)
   || lt (of_int (HEIGHT - Floor.height floor - height b)) (y b))
  || ((Pipe.x pipe <? x b + width b)
        && (x b + width b <? Pipe.x pipe + Pipe.width pipe)
      && (lt (y b) (of_int (Pipe.gap_start pipe))
          || lt (of_int (Pipe.gap_start pipe + PIPE_GAP))
                (plus (y b) (of_int (height b))))).

End WithNumbers.
Arguments t F : clear implicits.
End Bird.

(** ** Input events and commands *)

Inductive Key : Type := K_SPACE | K_UP | K_ESCAPE | K_other (code : Z).

Inductive Event : Type := QUIT | KEYDOWN (key : Key) | other_event.

Inductive Command : Type := FlapCommand | ExitCommand.

(** [Game.controls], a dict from key codes to command objects. *)
Definition controls (key : Key) : option Command :=
  match key with
  | K_SPACE => Some FlapCommand
  | K_UP => Some FlapCommand
  | K_ESCAPE => Some ExitCommand
  | K_other _ => None
  end.

Module GameMemento.

Record t (F : Type) : Type := mk {
  score : Z;
  game_over : bool;
  bird_state : Z * F;
  pipe_states : list Z;
  floor_state : Z
}.
Arguments mk {F}.
Arguments score {F}.
Arguments game_over {F}.
Arguments bird_state {F}.
Arguments pipe_states {F}.
Arguments floor_state {F}.

End GameMemento.

(** [d[k] = v] on a dict kept as an association list. *)
Fixpoint dict_set {V : Type} (k : string) (v : V) (d : list (string * V))
    : list (string * V) :=
  match d with
  | [] => [(k, v)]
  | (k', v') :: d' =>
      if String.eqb k' k then (k, v) :: d' else (k', v') :: dict_set k v d'
  end.

Module Game.
Section WithNumbers.
Context {F : Type} {num : PyNum F}.

(** The sprite dimensions, and the raw draws behind [randint], one per
    call, in call order. *)
Variable assets : Assets.
Variable entropy : nat -> Z.

(** The game object together with the process-wide state its methods read
    and write: the global [PIPE_GAP], the class attributes
    [Game.highscore] and [Game.pipefactory._flyweights] (a dict of
    references to pipes, kept as their identities), the number of
    [randint] calls so far and the number of pipes allocated so far. *)
Record t : Type := mk {
  score : Z;
  game_over : bool;
  bird : Bird.t F;
  pipes : list Pipe.t;
  floor : Floor.t;
  difficulty : string;
  PIPE_GAP : Z;
  highscore : Z;
  flyweights : list (string * nat);
  draws : nat;
  allocated : nat
}.

Definition set_score (v : Z) (g : t) : t :=
  mk v (game_over g) (bird g) (pipes g) (floor g) (difficulty g)
     (PIPE_GAP g) (highscore g) (flyweights g) (draws g) (allocated g).
Definition set_game_over (v : bool) (g : t) : t :=
  mk (score g) v (bird g) (pipes g) (floor g) (difficulty g)
     (PIPE_GAP g) (highscore g) (flyweights g) (draws g) (allocated g).
Definition set_bird (v : Bird.t F) (g : t) : t :=
  mk (score g) (game_over g) v (pipes g) (floor g) (difficulty g)
     (PIPE_GAP g) (highscore g) (flyweights g) (draws g) (allocated g).
Definition set_pipes (v : list Pipe.t) (g : t) : t :=
  mk (score g) (game_over g) (bird g) v (floor g) (difficulty g)
     (PIPE_GAP g) (highscore g) (flyweights g) (draws g) (allocated g).
Definition set_floor (v : Floor.t) (g : t) : t :=
  mk (score g) (game_over g) (bird g) (pipes g) v (difficulty g)
     (PIPE_GAP g) (highscore g) (flyweights g) (draws g) (allocated g).
Definition set_difficulty (name : string) (gap : Z) (g : t) : t :=
  mk (score g) (game_over g) (bird g) (pipes g) (floor g) name
     gap (highscore g) (flyweights g) (draws g) (allocated g).
Definition set_highscore (v : Z) (g : t) : t :=
  mk (score g) (game_over g) (bird g) (pipes g) (floor g) (difficulty g)
     (PIPE_GAP g) v (flyweights g) (draws g) (allocated g).

(** [PipeFactory.get_flyweight]: builds a pipe, stores it under its key
    and returns it.  The image list starts with the top pipe. *)
Definition get_flyweight (x : Z) (image : Image) (shared_state : string)
    (g : t) : result (t * Pipe.t) :=
  p <- Pipe.init (allocated g) (PIPE_GAP g) (entropy (draws g))
                 x image shared_state ;;
  Ok (mk (score g) (game_over g) (bird g) (pipes g) (floor g) (difficulty g)
         (PIPE_GAP g) (highscore g)
         (dict_set shared_state (Pipe.ident p) (flyweights g))
         (S (draws g)) (S (allocated g)),
      p).

(** The process before [Game()] runs: class attributes and globals only. *)
Definition at_import : t :=
  mk 0 false (Bird.init 0 (of_int 0) (yellowbird assets)) []
     (Floor.init 0 0 (base assets)) EmptyString
     PIPE_GAP_default 0 [] 0 0.

(** [Game.__init__], with [argv] standing for [sys.argv]. *)
Definition init (argv : list string) : result t :=
  let g := set_score 0 at_import in
  let g := set_game_over false g in
  let g := set_bird (Bird.init (WIDTH / 20) (of_int (HEIGHT / 2))
                               (yellowbird assets)) g in
  ' (g, p1) <- get_flyweight (WIDTH + WIDTH / 2) (pipe_top assets) "pipe" g ;;
  ' (g, p2) <- get_flyweight (WIDTH + WIDTH / 2 + 340) (pipe_top assets)
                             "pipe" g ;;
  let g := set_pipes [p1; p2] g in
  let g := set_floor (Floor.init 0 (HEIGHT - 224) (base assets)) g in
  let g := set_difficulty "Easy" (PIPE_GAP g) g in
  Ok match nth_error argv 1 with
     | Some a =>
         if String.eqb a "h" || String.eqb a "hard"
         then set_difficulty "Hard" 150 g
         else if String.eqb a "m" || String.eqb a "med"
         then set_difficulty "Medium" 200 g
         else g
     | None => g
     end.

(** [Observer.update]: one more point. *)
Definition Observer_update (score : Z) : Z := score + 1.

(** The first loop of [Game.update] over the pipes still to visit: the
    pipes as the loop leaves them (those visited have moved), the pipes to
    remove, the score, and whether a collision broke out of the loop. *)
Fixpoint pipe_loop (gap : Z) (b : Bird.t F) (fl : Floor.t)
    (todo : list Pipe.t) (score : Z)
    : list Pipe.t * list Pipe.t * Z * bool :=
  match todo with
  | [] => ([], [], score, false)
  | pipe :: rest =>
      let pipe := Pipe.motion pipe in
      if Bird.collision gap b fl pipe
      then (pipe :: rest, [], score, true)
      else
        let gone := if Pipe.offscreen pipe then [pipe] else [] in
        let score :=
          if Pipe.x pipe + PIPE_THICKNESS / 2 =? Bird.x b
          then Observer_update score else score in
        let '(ps, to_remove, score, over) := pipe_loop gap b fl rest score in
        (pipe :: ps, gone ++ to_remove, score, over)
  end.

(** The second loop of [Game.update]. *)
Fixpoint remove_loop (pipes_to_remove : list Pipe.t) (g : t) : result t :=
  match pipes_to_remove with
  | [] => Ok g
  | pipe :: rest =>
      ps <- Pipe.list_remove pipe (pipes g) ;;
      ' (g, p) <- get_flyweight WIDTH (pipe_top assets) "pipe"
                                (set_pipes ps g) ;;
      remove_loop rest (set_pipes (pipes g ++ [p]) g)
  end.

Definition update (g : t) : result t :=
  if game_over g then Ok g
  else
    let g := if Floor.offscreen (floor g)
             then set_floor (Floor.set_x 0 (floor g)) g else g in
    let '(ps, pipes_to_remove, sc, over) :=
      pipe_loop (PIPE_GAP g) (bird g) (floor g) (pipes g) (score g) in
    let g := set_pipes ps g in
    let g := set_score sc g in
    let g := if over then set_game_over true g else g in
    g <- remove_loop pipes_to_remove g ;;
    let g := set_bird (Bird.motion (bird g)) g in
    Ok (set_floor (Floor.motion (floor g)) g).

(** [FlapCommand.execute] and [ExitCommand.execute]. *)
Definition execute (c : Command) (g : t) : result t :=
  match c with
  | FlapCommand =>
      Ok (set_bird (Bird.flap (Bird.set_started true (bird g))) g)
  | ExitCommand => Raise SystemExit
  end.

(** [Game.handle_input] over the events [pygame.event.get()] returned. *)
Fixpoint handle_input (events : list Event) (g : t) : result t :=
  match events with
  | [] => Ok g
  | QUIT :: _ => Raise SystemExit
  | KEYDOWN key :: rest =>
      match controls key with
      | Some command => g <- execute command g ;; handle_input rest g
      | None => handle_input rest g
      end
  | other_event :: rest => handle_input rest g
  end.

(** [Game.endgame], without its drawing. *)
Definition endgame (g : t) : t :=
  let g := set_game_over true g in
  if highscore g <? score g then set_highscore (score g) g else g.

(** [GameOriginator.create_memento]. *)
Definition create_memento (game : t) : GameMemento.t F :=
  let bird_state := (Bird.x (bird game), Bird.y (bird game)) in
  let pipe_states := map Pipe.x (pipes game) in
  let floor_state := Floor.x (floor game) in
  GameMemento.mk (score game) (game_over game)
                 bird_state pipe_states floor_state.

(** The list comprehension of [restore_from_memento]. *)
Fixpoint flyweights_at (xs : list Z) (g : t) : result (t * list Pipe.t) :=
  match xs with
  | [] => Ok (g, [])
  | x :: xs' =>
      ' (g, p) <- get_flyweight x (pipe_top assets) "pipe" g ;;
      ' (g, ps) <- flyweights_at xs' g ;;
      Ok (g, p :: ps)
  end.

(** [GameOriginator.restore_from_memento]. *)
Definition restore_from_memento (memento : GameMemento.t F) (game : t)
    : result t :=
  let game := set_score (GameMemento.score memento) game in
  let game := set_game_over (GameMemento.game_over memento) game in
  let bird_state := GameMemento.bird_state memento in
  let pipe_states := GameMemento.pipe_states memento in
  let floor_state := GameMemento.floor_state memento in
  let game := set_bird (Bird.init (fst bird_state) (snd bird_state)
                                  (yellowbird assets)) game in
  ' (game, ps) <- flyweights_at pipe_states game ;;
  let game := set_pipes ps game in
  Ok (set_floor (Floor.init floor_state (HEIGHT - 224) (base assets)) game).

(** One turn of the [while True] loop of [main], given the events of the
    frame.  When the round is over the game is restored and [main] calls
    itself, which takes a new memento of the restored game. *)
Definition main_iteration (events : list Event)
    (start_state : GameMemento.t F) (game : t)
    : result (t * GameMemento.t F) :=
  game <- handle_input events game ;;
  game <- (if Bird.started (bird game) then update game else Ok game) ;;
  if game_over game
  then
    game <- restore_from_memento start_state (endgame game) ;;
    Ok (game, create_memento game)
  else Ok (game, start_state).

Fixpoint main_loop (frames : list (list Event))
    (start_state : GameMemento.t F) (game : t)
    : result (t * GameMemento.t F) :=
  match frames with
  | [] => Ok (game, start_state)
  | events :: frames' =>
      ' (game, start_state) <- main_iteration events start_state game ;;
      main_loop frames' start_state game
  end.

(** [main], run for as many frames as [frames] has. *)
Definition main (argv : list string) (frames : list (list Event))
    : result (t * GameMemento.t F) :=
  game <- init argv ;;
  main_loop frames (create_memento game) game.

End WithNumbers.
Arguments t F : clear implicits.
End Game.

(** ** Concrete inputs used by the examples below *)

(** Raw draws for closed examples: the n-th draw is [37 * n]. *)
Definition sample_entropy (n : nat) : Z := 37 * Z.of_nat n.

(** A bird of the stock size at height [y], moving at [vely]. *)
Definition bird_at {F : Type} {num : PyNum F} (y vely : F) : Bird.t F :=
  Bird.mk 28 y 48 68 vely true (of_int 0) (of_int 20).

Definition pipe_at (ident : nat) (x gap_start : Z) : Pipe.t :=
  Pipe.mk ident x 640 104 gap_start "pipe".

Definition stock_floor (x : Z) : Floor.t := Floor.mk x (HEIGHT - 224) 224 672.

(** A round in progress whose bird has sunk to [y = 760], below the line
    [HEIGHT - 224 - 48 = 752] at which it touches the floor. *)
Definition sunk_game {F : Type} {num : PyNum F} : Game.t F :=
  Game.mk 3 false (bird_at (of_int 760) (of_int 10))
          [pipe_at 4 200 300; pipe_at 5 540 120] (stock_floor (-100))
          "Easy" 250 3 [("pipe"%string, 5%nat)] 6 6.


(** A session: the command line asks for the hard mode, the player flaps
    in the first frame and watches for two more. *)
Definition sample_argv : list string := ["flappy.py"; "hard"]%string.
Definition sample_frames : list (list Event) := [[KEYDOWN K_SPACE]; []; []].

(** The same round once it is over. *)
Definition over_game {F : Type} {num : PyNum F} : Game.t F :=
  Game.set_game_over true sunk_game.

(** A bird whose right edge (x = 96) has left the pipe (x from -20 to 84)
    while its body (x from 28) is still inside, 20 pixels above the gap. *)
Definition trailing_bird {F : Type} {num : PyNum F} : Bird.t F :=
  bird_at (of_int 280) (of_int (-5)).
Definition trailing_pipe : Pipe.t := pipe_at 0 (-20) 300.

(** ** The collision rule as the specification words it

    (a) the bird is above the top of the screen or below the top of the
    floor, or (b) the horizontal extents of bird and pipe overlap and the
    bird's vertical extent is not inside the gap. *)
Definition extents_overlap {F : Type} (b : Bird.t F) (pipe : Pipe.t) : bool :=
  (Pipe.x pipe <? Bird.x b + Bird.width b)
  && (Bird.x b <? Pipe.x pipe + Pipe.width pipe).

Definition collision_as_specified {F : Type} {num : PyNum F}
    (PIPE_GAP : Z) (b : Bird.t F) (floor : Floor.t) (pipe : Pipe.t) : bool :=
  (lt (Bird.y b) (of_int 0)
   || lt (of_int (HEIGHT - Floor.height floor - Bird.height b)) (Bird.y b))
  || (extents_overlap b pipe
      && (lt (Bird.y b) (of_int (Pipe.gap_start pipe))
          || lt (of_int (Pipe.gap_start pipe + PIPE_GAP))
                (plus (Bird.y b) (of_int (Bird.height b))))).

(** ** Free fall *)

(** [n] calls of [Bird.motion] on a new bird, no flap in between. *)
Definition free_fall {F : Type} {num : PyNum F}
    (n : nat) (x : Z) (y0 : F) (image : Image) : Bird.t F :=
  Nat.iter n Bird.motion (Bird.init x y0 image).


(** ** Notions used by the statements *)

(** The test of the score tracker: the pipe's centre is at [bird_x]. *)
Definition centred (bird_x : Z) (p : Pipe.t) : bool :=
  Pipe.x p + PIPE_THICKNESS / 2 =? bird_x.


(** The three values [PIPE_GAP] takes. *)
Definition valid_gap (gap : Z) : Prop := gap = 250 \/ gap = 200 \/ gap = 150.

(** The gap of [p], [gap] tall, starts at 50 or lower and ends at
    [HEIGHT - 274] or higher on the screen. *)
Definition gap_fits (gap : Z) (p : Pipe.t) : Prop :=
  50 <= Pipe.gap_start p /\ Pipe.gap_start p + gap <= HEIGHT - 274.

(** A pipe that [Game.update] creates in state [g]. *)
Definition recycled_in {F : Type} (g : Game.t F) (p : Pipe.t) : Prop :=
  Pipe.x p = WIDTH /\ gap_fits (Game.PIPE_GAP g) p
  /\ (Game.allocated g <= Pipe.ident p)%nat.

(** What the pipe factory and the loops over the pipes leave alone. *)
Definition same_round {F : Type} (g g' : Game.t F) : Prop :=
  Game.score g' = Game.score g
  /\ Game.game_over g' = Game.game_over g
  /\ Game.bird g' = Game.bird g
  /\ Game.floor g' = Game.floor g
  /\ Game.difficulty g' = Game.difficulty g
  /\ Game.PIPE_GAP g' = Game.PIPE_GAP g
  /\ Game.highscore g' = Game.highscore g.

(** The invariant of the pipe pool: two pipes, distinct objects allocated
    earlier, each with a gap that fits under the current [PIPE_GAP]; the
    floor's top edge is at [HEIGHT - 224] and the bird at [WIDTH // 20]. *)
Definition well_formed {F : Type} (g : Game.t F) : Prop :=
  List.length (Game.pipes g) = 2%nat
  /\ NoDup (map Pipe.ident (Game.pipes g))
  /\ Forall (fun p => (Pipe.ident p < Game.allocated g)%nat) (Game.pipes g)
  /\ valid_gap (Game.PIPE_GAP g)
  /\ Forall (gap_fits (Game.PIPE_GAP g)) (Game.pipes g)
  /\ Floor.y (Game.floor g) = HEIGHT - 224
  /\ Bird.x (Game.bird g) = WIDTH / 20.

(** The snapshot [main] takes of a new game. *)
Definition start_state {F : Type} {num : PyNum F} : GameMemento.t F :=
  GameMemento.mk 0 false (WIDTH / 20, of_int (HEIGHT / 2))
                 [WIDTH + WIDTH / 2; WIDTH + WIDTH / 2 + 340] 0.

(** No event of the frame runs a command or closes the window. *)
Definition idle_event (e : Event) : Prop :=
  match e with
  | QUIT => False
  | KEYDOWN key => controls key = None
  | other_event => True
  end.

(** The floor as the first statement of a running [update] leaves it. *)
Definition wrapped_floor {F : Type} (g : Game.t F) : Floor.t :=
  if Floor.offscreen (Game.floor g)
  then Floor.set_x 0 (Game.floor g) else Game.floor g.

(** The game between the two loops of [update]: the first loop has left the
    pipes [ps], the score [sc] and the flag [over]. *)
Definition between_loops {F : Type} (g : Game.t F) (ps : list Pipe.t)
    (sc : Z) (over : bool) : Game.t F :=
  Game.mk sc over (Game.bird g) ps (wrapped_floor g) (Game.difficulty g)
          (Game.PIPE_GAP g) (Game.highscore g) (Game.flyweights g)
          (Game.draws g) (Game.allocated g).

(** What holds of a run of [main] between two frames: the loop goes on with
    a well-formed game that is not over and the snapshot of a new game, or
    the player has quit. *)
Definition frame_boundary {F : Type} {num : PyNum F}
    (r : result (Game.t F * GameMemento.t F)) : Prop :=
  match r with
  | Ok (g, st) =>
      well_formed g /\ Game.game_over g = false /\ st = start_state
  | Raise e => e = SystemExit
  end.

(** ** Proof tactics *)

Ltac bind_inv H :=
  unfold bind in H;
  repeat match type of H with
         | context [match ?m with Ok _ => _ | Raise _ => _ end] =>
             let E := fresh "E" in destruct m eqn:E; try discriminate H
         | context [let '(_, _) := ?m in _] =>
             let E := fresh "E" in destruct m eqn:E
         end.

(** Reduces the projections of the records, and nothing of the numbers. *)
Ltac fields :=
  unfold Game.set_score, Game.set_game_over, Game.set_bird, Game.set_pipes,
    Game.set_floor, Game.set_difficulty, Game.set_highscore in *;
  cbn [Game.score Game.game_over Game.bird Game.pipes Game.floor
       Game.difficulty Game.PIPE_GAP Game.highscore Game.flyweights
       Game.draws Game.allocated
       Pipe.ident Pipe.x Pipe.height Pipe.width Pipe.gap_start
       Pipe.shared_state Pipe.motion
       Floor.x Floor.y Floor.height Floor.width
       Bird.x Bird.y Bird.height Bird.width Bird.vely Bird.started
       Bird.degree Bird.rotation
       GameMemento.score GameMemento.game_over GameMemento.bird_state
       GameMemento.pipe_states GameMemento.floor_state
       fst snd] in *.

(** * Properties *)

(** ** Flap *)


(** ** Collision *)

(** C2. The code misses a case of the rule.  With the bird's right edge
    past the pipe (pipe at x = -20, bird from x = 28 to 96) the extents
    still overlap and the bird is 20 pixels above the gap, so the rule as
    specified reports a collision; [Bird.collision] tests only whether the
    bird's right edge lies strictly inside the pipe and returns false.
    This holds on binary64 floats and in exact arithmetic alike. *)
Theorem collision_ignores_the_trailing_overlap :
  extents_overlap (trailing_bird (num := binary64)) trailing_pipe = true
  /\ lt (Bird.y (trailing_bird (num := binary64)))
        (of_int (Pipe.gap_start trailing_pipe)) = true
  /\ collision_as_specified (num := binary64) 250
       trailing_bird (stock_floor 0) trailing_pipe = true
  /\ Bird.collision (num := binary64) 250
       trailing_bird (stock_floor 0) trailing_pipe = false
  /\ collision_as_specified (num := exactQ) 250
       trailing_bird (stock_floor 0) trailing_pipe = true
  /\ Bird.collision (num := exactQ) 250
       trailing_bird (stock_floor 0) trailing_pipe = false.
Proof.
  repeat split; vm_compute; reflexivity.
Qed.

(** ** Rotation *)

(** C5. The guard of [Bird.motion] is tested before the subtraction, so the
    rotation passes -90: a new bird that falls for 60 ticks has rotation
    -91.5 (on binary64 floats and in exact arithmetic), one tick after
    -88.5. *)
Theorem rotation_overshoots_minus_90 :
  lt (Bird.rotation (free_fall (num := binary64) 60 28 (of_int 512)
                               (yellowbird stock_assets)))
     (of_int (-90)) = true
  /\ PrimFloat.eqb
       (Bird.rotation (free_fall (num := binary64) 60 28 (of_int 512)
                                 (yellowbird stock_assets)))
       (float_of_lit (-915 # 10)) = true
  /\ PrimFloat.eqb
       (Bird.rotation (free_fall (num := binary64) 59 28 (of_int 512)
                                 (yellowbird stock_assets)))
       (float_of_lit (-885 # 10)) = true
  /\ (Bird.rotation (free_fall (num := exactQ) 60 28 (of_int 512)
                               (yellowbird stock_assets)) == -915 # 10)%Q.
Proof.
  repeat split; vm_compute; reflexivity.
Qed.

(** ** Free fall *)




(** ** The pipe factory and the two loops of [Game.update] *)

Lemma randint_in_range (r a b : Z) :
  a <= b -> exists v, randint r a b = Ok v /\ a <= v <= b.
Proof.
  intros Hab. unfold randint.
  destruct (a <=? b) eqn:E; [|apply Z.leb_gt in E; lia].
  eexists; split; [reflexivity|].
  pose proof (Z.mod_pos_bound r (b - a + 1)). lia.
Qed.

Lemma randint_inv (r a b v : Z) : randint r a b = Ok v -> a <= v <= b.
Proof.
  unfold randint. destruct (a <=? b) eqn:E; [|discriminate].
  apply Z.leb_le in E. intros H; injection H as <-.
  pose proof (Z.mod_pos_bound r (b - a + 1)). lia.
Qed.

Section GameFacts.
Context {F : Type} {num : PyNum F}.
Variable assets : Assets.
Variable entropy : nat -> Z.

Lemma get_flyweight_inv (x : Z) (image : Image) (key : string)
    (g g' : Game.t F) (p : Pipe.t) :
  Game.get_flyweight entropy x image key g = Ok (g', p) ->
  Pipe.ident p = Game.allocated g
  /\ Pipe.x p = x
  /\ 50 <= Pipe.gap_start p <= HEIGHT - Game.PIPE_GAP g - 224 - 50
  /\ same_round g g'
  /\ Game.pipes g' = Game.pipes g
  /\ Game.allocated g' = S (Game.allocated g).
Proof.
  unfold Game.get_flyweight, Pipe.init. intros H. bind_inv H. bind_inv E.
  apply randint_inv in E0.
  injection E as <-. injection H as <- <-.
  unfold same_round. fields. repeat split; try reflexivity; lia.
Qed.

Lemma get_flyweight_ok (x : Z) (image : Image) (key : string) (g : Game.t F) :
  Game.PIPE_GAP g <= HEIGHT - 324 ->
  exists g' p, Game.get_flyweight entropy x image key g = Ok (g', p).
Proof.
  intros Hgap. unfold Game.get_flyweight, Pipe.init.
  destruct (randint_in_range (entropy (Game.draws g)) 50
              (HEIGHT - Game.PIPE_GAP g - 224 - 50)) as (v & -> & _).
  { unfold HEIGHT in *. lia. }
  cbn. eauto.
Qed.

Lemma same_round_refl (g : Game.t F) : same_round g g.
Proof. unfold same_round. repeat split. Qed.

Lemma same_round_trans (g1 g2 g3 : Game.t F) :
  same_round g1 g2 -> same_round g2 g3 -> same_round g1 g3.
Proof.
  unfold same_round. intros (?&?&?&?&?&?&?) (?&?&?&?&?&?&?).
  repeat split; congruence.
Qed.

Lemma same_round_set_pipes (ps : list Pipe.t) (g : Game.t F) :
  same_round g (Game.set_pipes ps g).
Proof. unfold same_round. repeat split. Qed.

(** [list.remove] shortens the list by one. *)
Lemma list_remove_length (p : Pipe.t) (l l' : list Pipe.t) :
  Pipe.list_remove p l = Ok l' -> S (List.length l') = List.length l.
Proof.
  revert l'. induction l as [|q l IH]; intros l' H; cbn in H; [discriminate|].
  destruct (Nat.eqb (Pipe.ident q) (Pipe.ident p)).
  - injection H as <-. reflexivity.
  - bind_inv H. injection H as <-. cbn. f_equal. now apply IH.
Qed.

(** The second loop changes neither the length of the pipe list nor
    anything of the round but the pipes. *)
Lemma remove_loop_frame (l : list Pipe.t) :
  forall g g' : Game.t F,
    Game.remove_loop assets entropy l g = Ok g' ->
    same_round g g'
    /\ List.length (Game.pipes g') = List.length (Game.pipes g).
Proof.
  induction l as [|p l IH]; intros g g' H; cbn in H.
  - injection H as <-. split; [apply same_round_refl | reflexivity].
  - unfold bind in H.
    destruct (Pipe.list_remove p (Game.pipes g)) as [ps|] eqn:E;
      [|discriminate].
    destruct (Game.get_flyweight _ _ _ _ _) as [[g1 q]|] eqn:E0;
      [|discriminate].
    apply list_remove_length in E.
    apply get_flyweight_inv in E0 as (_ & _ & _ & Hsame & Hpipes & _).
    apply IH in H as [Hsame' Hlen]. split.
    + eapply same_round_trans; [apply same_round_set_pipes|].
      eapply same_round_trans; [exact Hsame|].
      eapply same_round_trans; [apply same_round_set_pipes | exact Hsame'].
    + rewrite Hlen. fields. rewrite Hpipes. fields.
      rewrite length_app. cbn [List.length]. lia.
Qed.

(** The first loop keeps the pipes in place and in order: each one is the
    pipe it was, or that pipe moved once. *)
Lemma pipe_loop_length (gap : Z) (b : Bird.t F) (fl : Floor.t)
    (todo : list Pipe.t) :
  forall score ps rm sc over,
    Game.pipe_loop gap b fl todo score = (ps, rm, sc, over) ->
    List.length ps = List.length todo.
Proof.
  induction todo as [|p todo IH]; intros score ps rm sc over H; cbn in H.
  - injection H as <- _ _ _. reflexivity.
  - destruct (Bird.collision gap b fl (Pipe.motion p)).
    + injection H as <- _ _ _. reflexivity.
    + destruct (Game.pipe_loop _ _ _ todo _) as [[[ps' rm'] sc'] over'] eqn:E.
      injection H as <- _ _ _. cbn. f_equal. eapply IH; eassumption.
Qed.

(** With no collision the first loop moves every pipe once, collects the
    pipes that are then off-screen, and adds one point for each pipe whose
    centre is then at the bird's x. *)
Lemma pipe_loop_no_collision (gap : Z) (b : Bird.t F) (fl : Floor.t)
    (todo : list Pipe.t) :
  forall score ps rm sc,
    Game.pipe_loop gap b fl todo score = (ps, rm, sc, false) ->
    ps = map Pipe.motion todo
    /\ rm = filter Pipe.offscreen (map Pipe.motion todo)
    /\ sc = score + Z.of_nat (List.length
                    (filter (centred (Bird.x b)) (map Pipe.motion todo))).
Proof.
  induction todo as [|p todo IH]; intros score ps rm sc H;
    cbn [Game.pipe_loop] in H.
  - injection H as <- <- <-. cbn. repeat split. lia.
  - destruct (Bird.collision gap b fl (Pipe.motion p)); [discriminate|].
    revert H.
    change (Pipe.x (Pipe.motion p) + PIPE_THICKNESS / 2 =? Bird.x b)
      with (centred (Bird.x b) (Pipe.motion p)).
    cbn [map filter].
    destruct (Pipe.offscreen (Pipe.motion p));
      destruct (centred (Bird.x b) (Pipe.motion p));
      (destruct (Game.pipe_loop _ _ _ todo _)
         as [[[ps' rm'] sc'] over'] eqn:E);
      intros H; injection H as <- <- <- ->;
      apply IH in E as (-> & -> & ->);
      cbn [app List.length]; unfold Game.Observer_update;
      repeat split; lia.
Qed.

End GameFacts.

(** ** [Game.update] *)

Section UpdateFacts.
Context {F : Type} {num : PyNum F}.
Variable assets : Assets.
Variable entropy : nat -> Z.

Lemma update_over (g : Game.t F) :
  Game.game_over g = true -> Game.update assets entropy g = Ok g.
Proof. intros H. unfold Game.update. now rewrite H. Qed.

(** A running [update], statement by statement. *)
Lemma update_running (g g' : Game.t F) :
  Game.game_over g = false ->
  Game.update assets entropy g = Ok g' ->
  exists ps rm sc over gm,
    Game.pipe_loop (Game.PIPE_GAP g) (Game.bird g) (wrapped_floor g)
                   (Game.pipes g) (Game.score g) = (ps, rm, sc, over)
    /\ Game.remove_loop assets entropy rm
         (Game.mk sc over (Game.bird g) ps (wrapped_floor g) (Game.difficulty g)
                  (Game.PIPE_GAP g) (Game.highscore g) (Game.flyweights g)
                  (Game.draws g) (Game.allocated g)) = Ok gm
    /\ g' = Game.set_floor (Floor.motion (Game.floor gm))
              (Game.set_bird (Bird.motion (Game.bird gm)) gm).
Proof.
  destruct g as [s o b ps0 fl d gap hs fw dr al]. cbn [Game.game_over].
  intros ->. unfold Game.update, wrapped_floor. cbn [Game.game_over Game.floor].
  destruct (Floor.offscreen fl); fields;
    (destruct (Game.pipe_loop gap b _ ps0 s) as [[[ps rm] sc] over] eqn:E);
    destruct over; fields; unfold bind;
    (destruct (Game.remove_loop assets entropy rm _) as [gm|] eqn:R;
       [|discriminate]);
    intros H; injection H as <-; exists ps, rm, sc; eexists; exists gm;
    (split; [reflexivity|]); (split; [exact R | reflexivity]).
Qed.

(** Whatever the loop over the pipes did, a running [update] ends with one
    [Bird.motion], one [Floor.motion] and a pipe list of the same length. *)
Lemma update_running_frame (g g' : Game.t F) :
  Game.game_over g = false ->
  Game.update assets entropy g = Ok g' ->
  Game.bird g' = Bird.motion (Game.bird g)
  /\ Game.floor g' = Floor.motion (wrapped_floor g)
  /\ List.length (Game.pipes g') = List.length (Game.pipes g)
  /\ Game.PIPE_GAP g' = Game.PIPE_GAP g.
Proof.
  intros Hrun H.
  destruct (update_running g g' Hrun H)
    as (ps & rm & sc & over & gm & Hloop & Hrm & ->).
  apply remove_loop_frame in Hrm as [(_ & _ & Hb & Hf & _ & Hg & _) Hlen].
  apply pipe_loop_length in Hloop. fields.
  rewrite Hb, Hf, Hlen, Hg, Hloop. repeat split.
Qed.


End UpdateFacts.



(** ** Snapshot and restore *)

Section RestoreFacts.
Context {F : Type} {num : PyNum F}.
Variable assets : Assets.
Variable entropy : nat -> Z.

Lemma valid_gap_bound (gap : Z) : valid_gap gap -> gap <= HEIGHT - 324.
Proof. unfold valid_gap, HEIGHT. lia. Qed.

(** The list comprehension builds one new pipe per recorded x, in order. *)
Lemma flyweights_at_inv (xs : list Z) :
  forall (g g' : Game.t F) (ps : list Pipe.t),
    Game.flyweights_at assets entropy xs g = Ok (g', ps) ->
    map Pipe.x ps = xs
    /\ map Pipe.ident ps = seq (Game.allocated g) (List.length xs)
    /\ Forall (fun p => 50 <= Pipe.gap_start p
                        <= HEIGHT - Game.PIPE_GAP g - 224 - 50) ps
    /\ same_round g g'
    /\ Game.pipes g' = Game.pipes g
    /\ Game.allocated g' = (Game.allocated g + List.length xs)%nat.
Proof.
  induction xs as [|x xs IH]; intros g g' ps H; cbn [Game.flyweights_at] in H.
  - injection H as <- <-. cbn. rewrite Nat.add_0_r.
    repeat split; auto using same_round_refl.
  - unfold bind in H.
    destruct (Game.get_flyweight _ _ _ _ _) as [[g1 p]|] eqn:E1;
      [|discriminate].
    destruct (Game.flyweights_at _ _ xs g1) as [[g2 ps']|] eqn:E2;
      [|discriminate].
    injection H as <- <-.
    apply get_flyweight_inv in E1 as (Hid & Hx & Hgap & Hsame & Hps & Hal).
    apply IH in E2 as (Hxs & Hids & Hgaps & Hsame' & Hps' & Hal').
    assert (Hg : Game.PIPE_GAP g1 = Game.PIPE_GAP g) by apply Hsame.
    cbn [map List.length seq]. rewrite Hxs, Hids, Hx, Hid, Hal.
    split; [reflexivity|]. split; [reflexivity|].
    split; [constructor; [exact Hgap | now rewrite <- Hg]|].
    split; [eapply same_round_trans; eassumption|].
    split; [congruence | lia].
Qed.

Lemma flyweights_at_ok (xs : list Z) :
  forall g : Game.t F,
    Game.PIPE_GAP g <= HEIGHT - 324 ->
    exists g' ps, Game.flyweights_at assets entropy xs g = Ok (g', ps).
Proof.
  induction xs as [|x xs IH]; intros g Hgap; cbn [Game.flyweights_at].
  - eauto.
  - destruct (get_flyweight_ok entropy x (pipe_top assets) "pipe" g Hgap)
      as (g1 & p & E1).
    rewrite E1. cbn [bind].
    apply get_flyweight_inv in E1 as (_ & _ & _ & Hsame & _).
    assert (Hg : Game.PIPE_GAP g1 = Game.PIPE_GAP g) by apply Hsame.
    destruct (IH g1) as (g2 & ps & E2); [now rewrite Hg|].
    rewrite E2. cbn [bind]. eauto.
Qed.

(** What [restore_from_memento] builds. *)
Lemma restore_from_memento_inv (m : GameMemento.t F) (g g' : Game.t F) :
  Game.restore_from_memento assets entropy m g = Ok g' ->
  Game.score g' = GameMemento.score m
  /\ Game.game_over g' = GameMemento.game_over m
  /\ Game.bird g' = Bird.init (fst (GameMemento.bird_state m))
                              (snd (GameMemento.bird_state m))
                              (yellowbird assets)
  /\ map Pipe.x (Game.pipes g') = GameMemento.pipe_states m
  /\ map Pipe.ident (Game.pipes g')
     = seq (Game.allocated g) (List.length (GameMemento.pipe_states m))
  /\ Forall (fun p => 50 <= Pipe.gap_start p
                      <= HEIGHT - Game.PIPE_GAP g - 224 - 50) (Game.pipes g')
  /\ Game.floor g' = Floor.init (GameMemento.floor_state m) (HEIGHT - 224)
                                (base assets)
  /\ Game.PIPE_GAP g' = Game.PIPE_GAP g
  /\ Game.highscore g' = Game.highscore g
  /\ Game.allocated g'
     = (Game.allocated g + List.length (GameMemento.pipe_states m))%nat.
Proof.
  unfold Game.restore_from_memento, bind. intros H.
  destruct (Game.flyweights_at _ _ _ _) as [[g1 ps]|] eqn:E; [|discriminate].
  injection H as <-.
  apply flyweights_at_inv in E
    as (Hxs & Hids & Hgaps & (Hs & Ho & Hb & _ & _ & Hg & Hh) & _ & Hal).
  fields. repeat split; assumption.
Qed.

Lemma restore_from_memento_ok (m : GameMemento.t F) (g : Game.t F) :
  Game.PIPE_GAP g <= HEIGHT - 324 ->
  exists g', Game.restore_from_memento assets entropy m g = Ok g'.
Proof.
  intros Hgap. unfold Game.restore_from_memento.
  destruct (flyweights_at_ok (GameMemento.pipe_states m)
              (Game.set_bird
                 (Bird.init (fst (GameMemento.bird_state m))
                            (snd (GameMemento.bird_state m))
                            (yellowbird assets))
                 (Game.set_game_over (GameMemento.game_over m)
                    (Game.set_score (GameMemento.score m) g))))
    as (g1 & ps & E); [exact Hgap|].
  rewrite E. cbn [bind]. eauto.
Qed.

(** [Game.__init__] succeeds, whatever the command line, and [main] takes
    the snapshot [start_state] of the game it built. *)
Lemma init_inv (argv : list string) :
  exists g0 : Game.t F,
    Game.init assets entropy argv = Ok g0
    /\ well_formed g0
    /\ Game.score g0 = 0
    /\ Game.game_over g0 = false
    /\ Bird.started (Game.bird g0) = false
    /\ Game.create_memento g0 = start_state.
Proof.
  unfold Game.init.
  set (g1 := Game.set_bird _ _).
  destruct (get_flyweight_ok entropy (WIDTH + WIDTH / 2) (pipe_top assets)
              "pipe" g1) as (g2 & p1 & E1);
    [change (Game.PIPE_GAP g1) with 250; unfold HEIGHT; lia|].
  rewrite E1. cbn [bind].
  apply get_flyweight_inv in E1 as (Hid1 & Hx1 & Hgap1 & Hsame2 & _ & Hal2).
  assert (Hg2 : Game.PIPE_GAP g2 = 250) by (now rewrite (proj1 (proj2 (proj2
    (proj2 (proj2 (proj2 Hsame2))))))).
  destruct (get_flyweight_ok entropy (WIDTH + WIDTH / 2 + 340)
              (pipe_top assets) "pipe" g2) as (g3 & p2 & E2);
    [rewrite Hg2; unfold HEIGHT; lia|].
  rewrite E2. cbn [bind].
  apply get_flyweight_inv in E2 as (Hid2 & Hx2 & Hgap2 & Hsame3 & _ & Hal3).
  destruct (same_round_trans _ _ _ Hsame2 Hsame3)
    as (Hs & Ho & Hb & _ & _ & Hg & _).
  change (Game.score g1) with 0 in Hs.
  change (Game.game_over g1) with false in Ho.
  change (Game.bird g1)
    with (Bird.init (WIDTH / 20) (of_int (HEIGHT / 2)) (yellowbird assets))
    in Hb.
  change (Game.PIPE_GAP g1) with 250 in Hg, Hgap1.
  rewrite Hg2 in Hgap2.
  rewrite Hal2 in Hid2, Hal3.
  change (Game.allocated g1) with 0%nat in Hid1, Hid2, Hal3.
  assert (Hnd : NoDup [Pipe.ident p1; Pipe.ident p2]).
  { rewrite Hid1, Hid2. repeat constructor; cbn; intuition lia. }
  assert (Hlt : Forall (fun p => (Pipe.ident p < 2)%nat) [p1; p2]).
  { constructor; [lia|]. constructor; [lia|]. constructor. }
  eexists. split; [reflexivity|].
  destruct (nth_error argv 1) as [a|];
    [destruct (String.eqb a "h" || String.eqb a "hard");
       [|destruct (String.eqb a "m" || String.eqb a "med")]|];
    unfold well_formed, valid_gap, gap_fits, Game.create_memento, start_state;
    fields; rewrite ?Hg, ?Hb, ?Hal3, ?Hs, ?Ho;
    cbn [map List.length Bird.init Bird.x Bird.y Bird.started
         Floor.init Floor.x Floor.y];
    rewrite ?Hx1, ?Hx2;
    unfold HEIGHT in *;
    (repeat split;
     try solve [ reflexivity | assumption | lia
               | repeat constructor; lia ]).
Qed.

(** C8. [restore_from_memento] succeeds and sets score and game-over flag to
    the recorded values, puts the bird at the recorded (x, y), builds one
    pipe at each recorded x, in order, and puts the floor at the recorded
    x: a snapshot of the restored game is the snapshot restored.  The
    snapshot [main] takes of the new game records score 0, game not over,
    the bird at (28, 512), pipes at 864 and 1204 and the floor at 0. *)
Theorem restore_from_memento_restores
    (argv : list string) (memento : GameMemento.t F) (game : Game.t F) :
  valid_gap (Game.PIPE_GAP game) ->
  (exists game',
     Game.restore_from_memento assets entropy memento game = Ok game'
     /\ Game.score game' = GameMemento.score memento
     /\ Game.game_over game' = GameMemento.game_over memento
     /\ (Bird.x (Game.bird game'), Bird.y (Game.bird game'))
        = GameMemento.bird_state memento
     /\ map Pipe.x (Game.pipes game') = GameMemento.pipe_states memento
     /\ Floor.x (Game.floor game') = GameMemento.floor_state memento
     /\ Game.create_memento game' = memento)
  /\ (exists game0,
        Game.init assets entropy argv = Ok game0
        /\ Game.create_memento game0
           = GameMemento.mk 0 false (28, of_int 512) [864; 1204] 0).
Proof.
  intros Hgap. split.
  - destruct (restore_from_memento_ok memento game (valid_gap_bound _ Hgap))
      as (g' & E).
    exists g'. split; [exact E|].
    apply restore_from_memento_inv in E
      as (Hs & Ho & Hb & Hxs & _ & _ & Hf & _).
    destruct memento as [s o [bx by_] xs fx]. fields.
    unfold Game.create_memento. rewrite Hs, Ho, Hb, Hxs, Hf.
    repeat split.
  - destruct (init_inv argv) as (g0 & E & _ & _ & _ & _ & Hm).
    exists g0. split; [exact E|]. rewrite Hm. reflexivity.
Qed.

(** C10. The bird [restore_from_memento] builds is at rest (velocity,
    rotation and fall angle 0) and has not started, although the snapshot
    records positions only; so, the recorded flag being false, a frame
    whose events run no command leaves the restored game as it is:
    [update] is not called before the next flap. *)
Theorem restored_bird_is_idle
    (memento : GameMemento.t F) (game game' : Game.t F) :
  Game.restore_from_memento assets entropy memento game = Ok game' ->
  Bird.vely (Game.bird game') = of_int 0
  /\ Bird.rotation (Game.bird game') = of_int 0
  /\ Bird.degree (Game.bird game') = of_int 0
  /\ Bird.started (Game.bird game') = false
  /\ (forall events st,
        Forall idle_event events ->
        GameMemento.game_over memento = false ->
        Game.main_iteration assets entropy events st game' = Ok (game', st)).
Proof.
  intros E.
  apply restore_from_memento_inv in E as (_ & Ho & Hb & _).
  rewrite Hb. repeat split.
  intros events st Hidle Hover.
  assert (Hin : Game.handle_input events game' = Ok game').
  { induction Hidle as [|e events He _ IH]; [reflexivity|].
    destruct e as [|key|]; cbn in He |- *; [contradiction| |exact IH].
    rewrite He. exact IH. }
  unfold Game.main_iteration. rewrite Hin. cbn [bind].
  rewrite Hb. cbn [Bird.started Bird.init bind].
  rewrite Ho, Hover. reflexivity.
Qed.

End RestoreFacts.

(** ** The pipe pool *)

Lemma NoDup_map_filter {A B : Type} (f : A -> B) (keep : A -> bool)
    (l : list A) :
  NoDup (map f l) -> NoDup (map f (filter keep l)).
Proof.
  induction l as [|a l IH]; cbn; [trivial|].
  intros H. inversion H as [|? ? Hnotin Hnd]; subst.
  destruct (keep a); cbn; [constructor|]; auto.
  intros Hin. apply Hnotin.
  apply in_map_iff in Hin as (b & <- & Hb).
  apply filter_In in Hb as [Hb _]. now apply in_map.
Qed.

Lemma NoDup_map_injective {A B : Type} (f : A -> B) (l : list A) :
  NoDup (map f l) ->
  forall a b, In a l -> In b l -> f a = f b -> a = b.
Proof.
  induction l as [|c l IH]; cbn; [contradiction|].
  intros H a b Ha Hb Hab. inversion H as [|? ? Hnotin Hnd]; subst.
  destruct Ha as [<-|Ha], Hb as [<-|Hb]; auto.
  - exfalso. apply Hnotin. rewrite Hab. now apply in_map.
  - exfalso. apply Hnotin. rewrite <- Hab. now apply in_map.
Qed.

Lemma Forall_of_map {A B : Type} (f : A -> B) (P : B -> Prop)
    (l l' : list A) :
  map f l' = map f l ->
  Forall (fun a => P (f a)) l -> Forall (fun a => P (f a)) l'.
Proof.
  intros Hmap H. apply Forall_map. rewrite Hmap. now apply Forall_map.
Qed.

(** With distinct identities, [list.remove] finds its pipe and drops that
    pipe only. *)
Lemma list_remove_filter (p : Pipe.t) (l : list Pipe.t) :
  NoDup (map Pipe.ident l) ->
  In (Pipe.ident p) (map Pipe.ident l) ->
  Pipe.list_remove p l
  = Ok (filter (fun q => negb (Nat.eqb (Pipe.ident q) (Pipe.ident p))) l).
Proof.
  induction l as [|q l IH]; cbn [map Pipe.list_remove filter];
    [contradiction|].
  intros H Hin. inversion H as [|? ? Hnotin Hnd]; subst.
  destruct (Nat.eqb (Pipe.ident q) (Pipe.ident p)) eqn:E; cbn [negb].
  - apply Nat.eqb_eq in E. f_equal. symmetry.
    apply forallb_filter_id. apply forallb_forall. intros r Hr.
    apply negb_true_iff, Nat.eqb_neq. intros Heq. apply Hnotin.
    rewrite E, <- Heq. now apply in_map.
  - apply Nat.eqb_neq in E. destruct Hin as [Hin|Hin]; [contradiction|].
    rewrite (IH Hnd Hin). reflexivity.
Qed.

Section PoolFacts.
Context {F : Type} {num : PyNum F}.
Variable assets : Assets.
Variable entropy : nat -> Z.

(** Collision or not, the first loop keeps identities and gaps in place,
    and the pipes it collects are distinct pipes of the list. *)
Lemma pipe_loop_shape (gap : Z) (b : Bird.t F) (fl : Floor.t)
    (todo : list Pipe.t) :
  forall score ps rm sc over,
    Game.pipe_loop gap b fl todo score = (ps, rm, sc, over) ->
    map Pipe.ident ps = map Pipe.ident todo
    /\ map Pipe.gap_start ps = map Pipe.gap_start todo
    /\ (forall p, In p rm -> In p ps)
    /\ (NoDup (map Pipe.ident todo) -> NoDup (map Pipe.ident rm)).
Proof.
  induction todo as [|p todo IH]; intros score ps rm sc over H;
    cbn [Game.pipe_loop] in H.
  - injection H as <- <- _ _. cbn.
    repeat split; auto; first [intros _; constructor | intros ? []].
  - destruct (Bird.collision gap b fl (Pipe.motion p)).
    + injection H as <- <- _ _. cbn [map Pipe.motion Pipe.ident Pipe.gap_start].
      repeat split; auto; first [intros _; constructor | intros ? []].
    + destruct (Game.pipe_loop _ _ _ todo _) as [[[ps' rm'] sc'] over'] eqn:E.
      injection H as <- <- _ _.
      apply IH in E as (Hid & Hgap & Hin & Hnd).
      cbn [map Pipe.motion Pipe.ident Pipe.gap_start].
      rewrite Hid, Hgap. split; [reflexivity|]. split; [reflexivity|]. split.
      * intros q Hq. apply in_app_or in Hq as [Hq|Hq].
        -- destruct (Pipe.offscreen _); [|contradiction].
           destruct Hq as [<-|[]]. now left.
        -- right. now apply Hin.
      * intros Hno. inversion Hno as [|? ? Hnotin Hnd']; subst.
        destruct (Pipe.offscreen _); cbn [app map]; [|now apply Hnd].
        constructor; [|now apply Hnd].
        intros Hq. apply Hnotin. rewrite <- Hid.
        apply in_map_iff in Hq as (q & Hq1 & Hq2).
        apply in_map_iff. exists q. split; [exact Hq1 | now apply Hin].
Qed.

(** The second loop, on distinct pipes of a pool of distinct pipes: every
    pipe to remove goes, every other pipe stays in place, and as many new
    pipes are appended, each created at [WIDTH] with a gap that fits. *)
Lemma remove_loop_spec (l : list Pipe.t) :
  forall g : Game.t F,
    NoDup (map Pipe.ident (Game.pipes g)) ->
    Forall (fun p => (Pipe.ident p < Game.allocated g)%nat) (Game.pipes g) ->
    NoDup (map Pipe.ident l) ->
    (forall p, In p l -> In (Pipe.ident p) (map Pipe.ident (Game.pipes g))) ->
    Game.PIPE_GAP g <= HEIGHT - 324 ->
    exists g' news,
      Game.remove_loop assets entropy l g = Ok g'
      /\ Game.pipes g'
         = filter (fun q => negb (existsb (fun p => Nat.eqb (Pipe.ident p)
                                                            (Pipe.ident q)) l))
                  (Game.pipes g) ++ news
      /\ List.length news = List.length l
      /\ Forall (recycled_in g) news
      /\ NoDup (map Pipe.ident (Game.pipes g'))
      /\ Forall (fun p => (Pipe.ident p < Game.allocated g')%nat)
                (Game.pipes g').
Proof.
  induction l as [|p l IH]; intros g Hnd Hlt Hl Hin Hgap;
    cbn [Game.remove_loop].
  - exists g, []. cbn [existsb negb]. rewrite app_nil_r.
    rewrite forallb_filter_id by (apply forallb_forall; reflexivity).
    repeat split; auto.
  - inversion Hl as [|? ? Hp Hl']; subst.
    rewrite (list_remove_filter p (Game.pipes g) Hnd (Hin p (or_introl eq_refl))).
    cbn [bind].
    set (rest := filter _ (Game.pipes g)).
    destruct (get_flyweight_ok entropy WIDTH (pipe_top assets) "pipe"
                (Game.set_pipes rest g) Hgap) as (g1 & n & E).
    rewrite E. cbn [bind].
    apply get_flyweight_inv in E
      as (Hid & Hx & Hrange & (_ & _ & _ & _ & _ & Hg1 & _) & Hps & Hal).
    fields.
    assert (Hrest_lt : Forall (fun q => (Pipe.ident q < Game.allocated g)%nat)
                              rest).
    { apply Forall_forall. intros q Hq. apply filter_In in Hq as [Hq _].
      revert q Hq. now apply Forall_forall. }
    destruct (IH (Game.set_pipes (Game.pipes g1 ++ [n]) g1))
      as (g' & news & E' & Hpipes & Hlen & Hnew & Hnd' & Hlt').
    + fields. rewrite Hps. rewrite map_app. cbn [map].
      apply NoDup_app;
        [now apply NoDup_map_filter | repeat constructor; intros [] |].
      intros i Hi [<-|[]].
      apply in_map_iff in Hi as (q & Hq1 & Hq2).
      rewrite Forall_forall in Hrest_lt. apply Hrest_lt in Hq2. lia.
    + fields. rewrite Hps, Hal. apply Forall_app. split.
      * eapply Forall_impl; [|exact Hrest_lt]. cbn. intros; lia.
      * constructor; [lia | constructor].
    + exact Hl'.
    + intros q Hq. fields. rewrite Hps, map_app. apply in_or_app. left.
      pose proof (Hin q (or_intror Hq)) as Hq'.
      apply in_map_iff in Hq' as (r & Hr1 & Hr2).
      apply in_map_iff. exists r. split; [exact Hr1|].
      apply filter_In. split; [exact Hr2|].
      apply negb_true_iff, Nat.eqb_neq. rewrite Hr1. intros Heq.
      apply Hp. rewrite <- Heq. now apply in_map.
    + fields. now rewrite Hg1.
    + exists g', (n :: news). split; [exact E'|].
      split.
      { fields. rewrite Hpipes, Hps, filter_app. cbn [filter].
        assert (Hn : existsb (fun p0 => Nat.eqb (Pipe.ident p0) (Pipe.ident n))
                             l = false).
        { apply not_true_is_false. intros Hex.
          apply existsb_exists in Hex as (q & Hq & Heq).
          apply Nat.eqb_eq in Heq.
          pose proof (Hin q (or_intror Hq)) as Hq'.
          apply in_map_iff in Hq' as (r & Hr1 & Hr2).
          rewrite Forall_forall in Hlt. apply Hlt in Hr2. lia. }
        rewrite Hn. cbn [negb app]. rewrite <- app_assoc. cbn [app].
        f_equal. unfold rest. clear.
        induction (Game.pipes g) as [|q ps IHps]; cbn [filter existsb];
          [reflexivity|].
        rewrite (Nat.eqb_sym (Pipe.ident p) (Pipe.ident q)).
        destruct (Nat.eqb (Pipe.ident q) (Pipe.ident p)); cbn [negb orb filter];
          [exact IHps|].
        destruct (existsb _ l); cbn [negb]; now rewrite IHps. }
      split; [cbn; lia|]. split; [|split; assumption].
      constructor.
      * unfold recycled_in, gap_fits. rewrite Hid. unfold HEIGHT in *.
        repeat split; lia.
      * eapply Forall_impl; [|exact Hnew]. intros q (Hq1 & Hq2 & Hq3).
        unfold recycled_in in *. fields. rewrite Hg1 in Hq2. rewrite Hal in Hq3.
        split; [exact Hq1|]. split; [exact Hq2 | lia].
Qed.

End PoolFacts.

(** ** One tick of a well-formed game *)

Section TickFacts.
Context {F : Type} {num : PyNum F}.
Variable assets : Assets.
Variable entropy : nat -> Z.

Lemma update_compose (g gm : Game.t F) (ps rm : list Pipe.t)
    (sc : Z) (over : bool) :
  Game.game_over g = false ->
  Game.pipe_loop (Game.PIPE_GAP g) (Game.bird g) (wrapped_floor g)
                 (Game.pipes g) (Game.score g) = (ps, rm, sc, over) ->
  Game.remove_loop assets entropy rm (between_loops g ps sc over) = Ok gm ->
  Game.update assets entropy g
  = Ok (Game.set_floor (Floor.motion (Game.floor gm))
          (Game.set_bird (Bird.motion (Game.bird gm)) gm)).
Proof.
  destruct g as [s o b ps0 fl d gap hs fw dr al]. cbn [Game.game_over].
  intros ->. unfold Game.update, between_loops, wrapped_floor.
  cbn [Game.game_over Game.floor Game.PIPE_GAP Game.bird Game.pipes
       Game.score Game.difficulty Game.highscore Game.flyweights Game.draws
       Game.allocated].
  destruct (Floor.offscreen fl); fields; intros -> Hrm;
    destruct over; fields; rewrite Hrm; reflexivity.
Qed.

Lemma wrapped_y (g : Game.t F) : Floor.y (wrapped_floor g) = Floor.y (Game.floor g).
Proof. unfold wrapped_floor. now destruct (Floor.offscreen _). Qed.

(** A running [update] of a well-formed game succeeds. *)
Lemma update_step (g : Game.t F) :
  well_formed g ->
  Game.game_over g = false ->
  exists ps rm sc over gm news,
    Game.pipe_loop (Game.PIPE_GAP g) (Game.bird g) (wrapped_floor g)
                   (Game.pipes g) (Game.score g) = (ps, rm, sc, over)
    /\ Game.update assets entropy g
       = Ok (Game.set_floor (Floor.motion (Game.floor gm))
               (Game.set_bird (Bird.motion (Game.bird gm)) gm))
    /\ same_round (between_loops g ps sc over) gm
    /\ Game.pipes gm
       = filter (fun q => negb (existsb (fun p => Nat.eqb (Pipe.ident p)
                                                          (Pipe.ident q)) rm))
                ps ++ news
    /\ List.length news = List.length rm
    /\ Forall (recycled_in g) news
    /\ NoDup (map Pipe.ident (Game.pipes gm))
    /\ Forall (fun p => (Pipe.ident p < Game.allocated gm)%nat)
              (Game.pipes gm)
    /\ List.length (Game.pipes gm) = 2%nat.
Proof.
  intros (Hlen & Hnd & Hlt & Hgap & Hfits & Hfy & Hbx) Hrun.
  destruct (Game.pipe_loop (Game.PIPE_GAP g) (Game.bird g) (wrapped_floor g)
              (Game.pipes g) (Game.score g))
    as [[[ps rm] sc] over] eqn:E.
  pose proof (pipe_loop_length _ _ _ _ _ _ _ _ _ E) as Hlen'.
  destruct (pipe_loop_shape _ _ _ _ _ _ _ _ _ E) as (Hid & _ & Hin & Hrm).
  destruct (remove_loop_spec assets entropy rm (between_loops g ps sc over))
    as (gm & news & Egm & Hpipes & Hnews & Hrec & Hnd' & Hlt').
  - unfold between_loops. fields. now rewrite Hid.
  - unfold between_loops. fields.
    apply (Forall_of_map Pipe.ident
             (fun i => (i < Game.allocated g)%nat) (Game.pipes g) ps Hid Hlt).
  - now apply Hrm.
  - intros p Hp. unfold between_loops. fields. apply in_map. now apply Hin.
  - unfold between_loops. fields. now apply valid_gap_bound.
  - exists ps, rm, sc, over, gm, news.
    split; [reflexivity|].
    split; [now apply (update_compose g gm ps rm sc over)|].
    apply remove_loop_frame in Egm as [Hsame Hlen''].
    split; [exact Hsame|]. split; [exact Hpipes|]. split; [exact Hnews|].
    split; [exact Hrec|]. split; [exact Hnd'|]. split; [exact Hlt'|].
    rewrite Hlen''. unfold between_loops. fields. congruence.
Qed.

(** [update] keeps a well-formed game well-formed. *)
Lemma update_well_formed (g : Game.t F) :
  well_formed g ->
  exists g', Game.update assets entropy g = Ok g' /\ well_formed g'.
Proof.
  intros Hwf. destruct (Game.game_over g) eqn:Hrun.
  { exists g. split; [now apply update_over | exact Hwf]. }
  destruct (update_step g Hwf Hrun)
    as (ps & rm & sc & over & gm & news & E & Eu & Hsame & Hpipes & Hnews
        & Hrec & Hnd' & Hlt' & Hlen').
  destruct Hwf as (Hlen & Hnd & Hlt & Hgap & Hfits & Hfy & Hbx).
  destruct (pipe_loop_shape _ _ _ _ _ _ _ _ _ E) as (_ & Hgaps & _ & _).
  destruct Hsame as (_ & _ & Hb & Hf & _ & Hg & _).
  unfold between_loops in Hb, Hf, Hg. fields.
  eexists. split; [exact Eu|].
  unfold well_formed. fields.
  split; [exact Hlen'|]. split; [exact Hnd'|]. split; [exact Hlt'|].
  rewrite Hg, Hf, Hb. split; [exact Hgap|]. split.
  - rewrite Hpipes. apply Forall_app. split.
    + apply Forall_forall. intros q Hq. apply filter_In in Hq as [Hq _].
      revert q Hq. apply Forall_forall.
      apply (Forall_of_map Pipe.gap_start
               (fun v => 50 <= v /\ v + Game.PIPE_GAP g <= HEIGHT - 274)
               (Game.pipes g) ps Hgaps Hfits).
    + eapply Forall_impl; [|exact Hrec]. intros q (_ & Hq & _). exact Hq.
  - split; [|exact Hbx].
    cbn [Floor.motion Floor.y]. now rewrite wrapped_y.
Qed.

(** With no collision, a tick moves every pipe once, removes exactly the
    pipes that are then off-screen, keeps the others in order and appends
    one new pipe per removed one; the score grows by the number of pipes
    whose centre is then at the bird's x. *)
Lemma update_recycles (g g' : Game.t F) :
  well_formed g ->
  Game.game_over g = false ->
  Game.update assets entropy g = Ok g' ->
  Game.game_over g' = false ->
  exists news,
    Game.pipes g'
    = filter (fun p => negb (Pipe.offscreen p))
             (map Pipe.motion (Game.pipes g)) ++ news
    /\ List.length news
       = List.length (filter Pipe.offscreen (map Pipe.motion (Game.pipes g)))
    /\ Forall (recycled_in g) news.
Proof.
  intros Hwf Hrun Hu Hover.
  destruct (update_step g Hwf Hrun)
    as (ps & rm & sc & over & gm & news & E & Eu & Hsame & Hpipes & Hnews
        & Hrec & _).
  rewrite Eu in Hu. injection Hu as <-.
  destruct Hsame as (_ & Ho & _). unfold between_loops in Ho. fields.
  rewrite Ho in Hover. subst over.
  apply pipe_loop_no_collision in E as (-> & -> & _).
  exists news. split; [|split; assumption].
  rewrite Hpipes. f_equal.
  destruct Hwf as (_ & Hnd & _).
  assert (Hnd' : NoDup (map Pipe.ident (map Pipe.motion (Game.pipes g)))).
  { rewrite map_map. exact Hnd. }
  apply filter_ext_in. intros q Hq. f_equal.
  destruct (Pipe.offscreen q) eqn:Eo.
  - apply existsb_exists. exists q. split; [|apply Nat.eqb_refl].
    apply filter_In. now split.
  - apply not_true_is_false. intros Hex.
    apply existsb_exists in Hex as (r & Hr & Heq).
    apply filter_In in Hr as [Hr Hoff]. apply Nat.eqb_eq in Heq.
    rewrite (NoDup_map_injective Pipe.ident _ Hnd' r q Hr Hq Heq) in Hoff.
    congruence.
Qed.


End TickFacts.

(** ** Runs of [main] *)

Section RunFacts.
Context {F : Type} {num : PyNum F}.
Variable assets : Assets.
Variable entropy : nat -> Z.

(** Input changes the bird only, and never its x: it keeps a game
    well-formed and its flag as it was; the only exception it raises is
    [SystemExit]. *)
Lemma handle_input_well_formed (events : list Event) :
  forall g : Game.t F,
    well_formed g ->
    match Game.handle_input events g with
    | Ok g' => well_formed g' /\ Game.game_over g' = Game.game_over g
    | Raise e => e = SystemExit
    end.
Proof.
  induction events as [|e events IH]; intros g Hwf; cbn [Game.handle_input].
  - now split.
  - destruct e as [|key|]; [reflexivity| |now apply IH].
    destruct key; cbn [controls Game.execute bind];
      try reflexivity; try now apply IH.
    all: match goal with
         | |- context [Game.handle_input _ ?g1] =>
             specialize (IH g1); cbn [Game.game_over Game.set_bird] in IH;
             apply IH
         end;
      unfold well_formed in *; fields; exact Hwf.
Qed.

Lemma endgame_well_formed (g : Game.t F) :
  well_formed g -> well_formed (Game.endgame g).
Proof.
  unfold Game.endgame, well_formed.
  destruct (_ <? _); fields; trivial.
Qed.

(** Restoring the snapshot of a new game gives a well-formed game that is
    not over and whose snapshot is that snapshot again. *)
Lemma restore_start_state (g g' : Game.t F) :
  valid_gap (Game.PIPE_GAP g) ->
  Game.restore_from_memento assets entropy start_state g = Ok g' ->
  well_formed g' /\ Game.game_over g' = false
  /\ Game.create_memento g' = start_state.
Proof.
  intros Hgap E.
  apply restore_from_memento_inv in E
    as (Hs & Ho & Hb & Hxs & Hids & Hgaps & Hf & Hg & _ & Hal).
  unfold start_state in *. fields. cbn [List.length] in *.
  split; [|split; [exact Ho|]].
  - unfold well_formed. rewrite Hg, Hf, Hb, Hal.
    split; [now rewrite <- (length_map Pipe.x), Hxs|].
    split; [rewrite Hids; apply seq_NoDup|].
    split.
    { apply (Forall_map Pipe.ident
               (fun i => (i < Game.allocated g + 2)%nat)).
      rewrite Hids. apply Forall_forall. intros i Hi.
      apply in_seq in Hi. lia. }
    split; [exact Hgap|]. split; [|split; reflexivity].
    eapply Forall_impl; [|exact Hgaps]. unfold gap_fits, HEIGHT.
    intros q Hq. cbn beta in Hq. lia.
  - unfold Game.create_memento. rewrite Hs, Ho, Hb, Hxs, Hf. reflexivity.
Qed.

(** One turn of the main loop leads from a frame boundary to the next. *)
Lemma main_iteration_boundary (events : list Event) (g : Game.t F) :
  well_formed g ->
  Game.game_over g = false ->
  frame_boundary (Game.main_iteration assets entropy events start_state g).
Proof.
  intros Hwf Hrun. unfold Game.main_iteration.
  pose proof (handle_input_well_formed events g Hwf) as Hin.
  destruct (Game.handle_input events g) as [g1|e]; cbn [bind];
    [|exact Hin].
  destruct Hin as [Hwf1 Hrun1]. rewrite Hrun in Hrun1.
  assert (Hup : exists g2,
             (if Bird.started (Game.bird g1)
              then Game.update assets entropy g1 else Ok g1) = Ok g2
             /\ well_formed g2).
  { destruct (Bird.started _); [now apply update_well_formed | eauto]. }
  destruct Hup as (g2 & -> & Hwf2). cbn [bind].
  destruct (Game.game_over g2) eqn:Hover2;
    [|cbn [frame_boundary]; auto].
  pose proof (endgame_well_formed g2 Hwf2) as Hwf3.
  assert (Hgap : valid_gap (Game.PIPE_GAP (Game.endgame g2)))
    by apply Hwf3.
  destruct (restore_from_memento_ok assets entropy start_state
              (Game.endgame g2) (valid_gap_bound _ Hgap)) as (g4 & E).
  rewrite E. cbn [bind frame_boundary].
  apply restore_start_state in E as (Hwf4 & Hrun4 & Hm); auto.
Qed.

Lemma main_loop_boundary (frames : list (list Event)) :
  forall g : Game.t F,
    well_formed g ->
    Game.game_over g = false ->
    frame_boundary (Game.main_loop assets entropy frames start_state g).
Proof.
  induction frames as [|events frames IH]; intros g Hwf Hrun;
    cbn [Game.main_loop].
  - cbn [frame_boundary]. auto.
  - pose proof (main_iteration_boundary events g Hwf Hrun) as Hit.
    destruct (Game.main_iteration _ _ _ _ _) as [[g1 st]|e]; cbn [bind];
      [|exact Hit].
    destruct Hit as (Hwf1 & Hrun1 & ->). now apply IH.
Qed.

(** Every run of [main] stops at a frame boundary: [main] raises neither
    [ValueError] nor anything but the [SystemExit] of a quit. *)
Lemma main_boundary (argv : list string) (frames : list (list Event)) :
  frame_boundary (Game.main (F := F) assets entropy argv frames).
Proof.
  unfold Game.main.
  destruct (init_inv assets entropy argv)
    as (g0 & E & Hwf & _ & Hrun & _ & Hm).
  rewrite E. cbn [bind]. rewrite Hm. now apply main_loop_boundary.
Qed.

End RunFacts.

(** ** The claims about runs *)




(** C3. A run of [main] never raises [ValueError]: every [list.remove] of
    [update] finds its pipe.  Between two frames there are two pipes, and
    the [update] of the next frame succeeds, whatever the input, and leaves
    two pipes.  When that tick ends with the game on, every pipe has moved
    once, the pipes then off-screen (x + 104 < 0) are gone and the others
    stay in order, followed by one new pipe per removed one, created at
    x = [WIDTH] with a gap drawn for it.  In any state at all, [update]
    keeps the number of pipes. *)
Theorem two_live_pipes
    (F : Type) (num : PyNum F) (assets : Assets) (entropy : nat -> Z)
    (argv : list string) (frames : list (list Event)) :
  Game.main (F := F) assets entropy argv frames <> Raise ValueError
  /\ (forall g st events g1,
        Game.main assets entropy argv frames = Ok (g, st) ->
        Game.handle_input events g = Ok g1 ->
        List.length (Game.pipes g) = 2%nat
        /\ exists g',
             Game.update assets entropy g1 = Ok g'
             /\ List.length (Game.pipes g') = 2%nat
             /\ (Game.game_over g' = false ->
                 exists news,
                   Game.pipes g'
                   = filter (fun p => negb (Pipe.offscreen p))
                            (map Pipe.motion (Game.pipes g)) ++ news
                   /\ List.length news
                      = List.length (filter Pipe.offscreen
                                       (map Pipe.motion (Game.pipes g)))
                   /\ Forall (recycled_in g) news))
  /\ (forall g g' : Game.t F,
        Game.update assets entropy g = Ok g' ->
        List.length (Game.pipes g') = List.length (Game.pipes g)).
Proof.
  pose proof (main_boundary (F := F) assets entropy argv frames) as Hb.
  split; [|split].
  - intros E. rewrite E in Hb. discriminate Hb.
  - intros g st events g1 E Hin. rewrite E in Hb.
    destruct Hb as (Hwf & Hrun & _).
    pose proof (handle_input_well_formed events g Hwf) as Hin'.
    rewrite Hin in Hin'. destruct Hin' as [Hwf1 Hrun1]. rewrite Hrun in Hrun1.
    split; [apply Hwf|].
    destruct (update_well_formed assets entropy g1 Hwf1) as (g' & Eu & Hwf').
    exists g'. split; [exact Eu|]. split; [apply Hwf'|].
    intros Hover.
    destruct (update_recycles assets entropy g1 g' Hwf1 Hrun1 Eu Hover)
      as (news & Hp & Hl & Hn).
    assert (Hsame : Game.pipes g1 = Game.pipes g
                    /\ Game.PIPE_GAP g1 = Game.PIPE_GAP g
                    /\ Game.allocated g1 = Game.allocated g).
    { clear - Hin. revert g Hin.
      induction events as [|e events IH]; intros g Hin;
        cbn [Game.handle_input] in Hin.
      - injection Hin as <-. auto.
      - destruct e as [|key|]; [discriminate| |now apply IH].
        destruct key; cbn [controls Game.execute bind] in Hin;
          try discriminate; apply IH in Hin; exact Hin. }
    destruct Hsame as (Hps & Hg & Ha).
    exists news. rewrite <- Hps. split; [exact Hp|]. split; [exact Hl|].
    eapply Forall_impl; [|exact Hn]. unfold recycled_in.
    rewrite Hg, Ha. auto.
  - intros g g' E. destruct (Game.game_over g) eqn:Hrun.
    + rewrite (update_over assets entropy g Hrun) in E. now injection E as <-.
    + apply (update_running_frame assets entropy g g' Hrun E).
Qed.

(** In the sample session the pool holds two pipes after three frames, and
    the next tick leaves two. *)
Lemma two_live_pipes_witness :
  exists (g g' : Game.t PrimFloat.float) st,
    Game.main stock_assets sample_entropy sample_argv sample_frames
    = Ok (g, st)
    /\ Game.update stock_assets sample_entropy g = Ok g'
    /\ List.length (Game.pipes g) = 2%nat
    /\ List.length (Game.pipes g') = List.length (Game.pipes g).
Proof.
  eexists. eexists. eexists.
  split; [vm_compute; reflexivity|].
  split; [vm_compute; reflexivity|].
  split.
  - eapply (proj1 (proj2 (two_live_pipes PrimFloat.float binary64
                            stock_assets sample_entropy
                            sample_argv sample_frames)) _ _ [] _);
      vm_compute; reflexivity.
  - apply (proj2 (proj2 (two_live_pipes PrimFloat.float binary64
                           stock_assets sample_entropy
                           sample_argv sample_frames))).
    vm_compute; reflexivity.
Defined.

(** C9. Between two frames of a run, and after the [update] of the next
    frame, [PIPE_GAP] is 250, 200 or 150 and every pipe of the pool has its
    gap start at 50 or more and its gap end, [gap_start + PIPE_GAP], at
    [HEIGHT - 274] or less, which is above the floor's top edge at
    [HEIGHT - 224]. *)
Theorem gaps_fit_on_screen
    (F : Type) (num : PyNum F) (assets : Assets) (entropy : nat -> Z)
    (argv : list string) (frames : list (list Event))
    (g : Game.t F) (st : GameMemento.t F) :
  Game.main assets entropy argv frames = Ok (g, st) ->
  forall events g1 g' gx,
    Game.handle_input events g = Ok g1 ->
    Game.update assets entropy g1 = Ok g' ->
    gx = g \/ gx = g' ->
    valid_gap (Game.PIPE_GAP gx)
    /\ Floor.y (Game.floor gx) = HEIGHT - 224
    /\ Forall (fun p => 50 <= Pipe.gap_start p
                        /\ Pipe.gap_start p + Game.PIPE_GAP gx <= HEIGHT - 274
                        /\ HEIGHT - 274 < Floor.y (Game.floor gx))
              (Game.pipes gx).
Proof.
  intros E events g1 g' gx Hin Eu Hgx.
  pose proof (main_boundary (F := F) assets entropy argv frames) as Hb.
  rewrite E in Hb. destruct Hb as (Hwf & _).
  pose proof (handle_input_well_formed events g Hwf) as Hin'.
  rewrite Hin in Hin'. destruct Hin' as [Hwf1 _].
  destruct (update_well_formed assets entropy g1 Hwf1) as (g2 & Eu' & Hwf').
  rewrite Eu in Eu'. injection Eu' as <-.
  assert (Hwfx : well_formed gx) by (destruct Hgx as [->| ->]; assumption).
  destruct Hwfx as (_ & _ & _ & Hgap & Hfits & Hfy & _).
  split; [exact Hgap|]. split; [exact Hfy|].
  eapply Forall_impl; [|exact Hfits]. unfold gap_fits.
  intros p [H1 H2]. rewrite Hfy. unfold HEIGHT in *. lia.
Qed.

(** In the sample session (hard mode, [PIPE_GAP] = 150) the two pipes were
    drawn while [PIPE_GAP] was still 250; their gaps fit all the same. *)
Lemma gaps_fit_on_screen_witness :
  exists (g g' : Game.t PrimFloat.float) st,
    Game.main stock_assets sample_entropy sample_argv sample_frames
    = Ok (g, st)
    /\ Game.update stock_assets sample_entropy g = Ok g'
    /\ Game.PIPE_GAP g' = 150
    /\ valid_gap (Game.PIPE_GAP g')
    /\ Floor.y (Game.floor g') = HEIGHT - 224
    /\ Forall (fun p => 50 <= Pipe.gap_start p
                        /\ Pipe.gap_start p + Game.PIPE_GAP g' <= HEIGHT - 274
                        /\ HEIGHT - 274 < Floor.y (Game.floor g'))
              (Game.pipes g').
Proof.
  eexists. eexists. eexists.
  split; [vm_compute; reflexivity|].
  split; [vm_compute; reflexivity|].
  split; [reflexivity|].
  refine (gaps_fit_on_screen _ binary64 stock_assets sample_entropy
            sample_argv sample_frames _ _ _ [] _ _ _ _ _
            (or_intror eq_refl));
    vm_compute; reflexivity.
Defined.

(** Restoring the snapshot of a new game over the finished round
    [over_game] brings back score 0, the flag off and the start layout. *)
Lemma restore_from_memento_restores_witness :
  valid_gap (Game.PIPE_GAP (over_game (num := binary64)))
  /\ exists game' : Game.t PrimFloat.float,
       Game.restore_from_memento stock_assets sample_entropy
                                 start_state over_game = Ok game'
       /\ Game.score game' = 0
       /\ Game.game_over game' = false
       /\ map Pipe.x (Game.pipes game') = [864; 1204]
       /\ Floor.x (Game.floor game') = 0
       /\ Game.create_memento game' = start_state.
Proof.
  split; [left; reflexivity|].
  destruct (proj1 (restore_from_memento_restores
                     stock_assets sample_entropy
                     sample_argv start_state
                     (over_game (num := binary64))
                     (or_introl eq_refl)))
    as (game' & E & Hs & Ho & _ & Hxs & Hf & Hm).
  exists game'. repeat split; assumption.
Defined.

(** After that restore the bird is at rest, and a frame with a mouse move
    and the key [a] leaves the game as it is. *)
Lemma restored_bird_is_idle_witness :
  exists game' : Game.t PrimFloat.float,
    Game.restore_from_memento stock_assets sample_entropy
                              start_state over_game = Ok game'
    /\ Bird.vely (Game.bird game') = of_int 0
    /\ Bird.started (Game.bird game') = false
    /\ Game.main_iteration stock_assets sample_entropy
         [other_event; KEYDOWN (K_other 97)] start_state game'
       = Ok (game', start_state).
Proof.
  eexists. split; [vm_compute; reflexivity|].
  destruct (restored_bird_is_idle stock_assets sample_entropy
              start_state (over_game (num := binary64)) _ eq_refl)
    as (Hv & _ & _ & Hs & Hidle).
  split; [exact Hv|]. split; [exact Hs|].
  apply Hidle; [|reflexivity].
  repeat constructor.
Defined.
